(** * Line splitter of the SDL3 client: [create_new_line_utf8strs]

    A shallow embedding of [client/gui-sdl3/utf8string.c] and the
    properties of its only function.  The C function scans a
    NUL-terminated text with two pointers ([start], [pstr]) and two
    [size_t] counters ([len], [count]) and stores one heap-allocated
    string per line into a function-static array of 512 pointers. *)

From Equations Require Import Equations.
From stdpp Require Import base numbers list strings.
From Stdlib Require Import Ascii NArith Lia.

Local Open Scope N_scope.
Local Open Scope nat_scope.

(** ** Characters, heap blocks and pointers *)

(** The three [char] constants of the source: ['\0'], ['\n'] and [' ']. *)
Definition NUL : ascii := Ascii.zero.
Definition NL : ascii := "010"%char.
Definition SPACE : ascii := " "%char.

(** A heap block is the sequence of bytes it holds. *)
Definition block := list ascii.

(** A [char *] slot of the static array: the null pointer or a pointer
    to a heap block owned by that slot.  Every block is allocated fresh
    and is reachable through one slot only, so a pointer is modelled by
    the contents of its block. *)
Inductive ptr : Type :=
| NULL
| Ptr (b : block).

(** Number of slots of [static char *buf[512]]. *)
Definition BUF_SLOTS : nat := 512.

(** The array as the C runtime sets it up: every slot null. *)
Definition fresh_buf : list ptr := replicate BUF_SLOTS NULL.

(** ** Undefined behaviour *)

(** The ways in which a step of the function can leave the objects it
    works on.  The function reports no error of its own. *)
Inductive fault : Set :=
| ReadOutOfBounds   (* a read outside the text object *)
| ArrayOverflow     (* buf[count] with count outside the array *)
| HeapOverflow      (* a write outside a heap block *)
| NullDeref.        (* a write through a null slot *)

(** A computation returns a value or runs into undefined behaviour. *)
Inductive outcome (A : Type) : Type :=
| Ret (a : A)
| Undef (f : fault).
Arguments Ret {A} a.
Arguments Undef {A} f.

Definition bind {A B} (m : outcome A) (k : A -> outcome B) : outcome B :=
  match m with
  | Ret a => k a
  | Undef f => Undef f
  end.

Notation "'let*' x ':=' m 'in' k" := (bind m (fun x => k))
  (at level 10, x name, m at level 100, k at level 200, only parsing).

(** ** [size_t] arithmetic *)

(** [size_t] is taken to be 64 bits wide; the proofs only use that the
    size of the text object is representable in it. *)
Definition SIZE_BITS : N := 64.
Definition SIZE_MOD : N := (2 ^ SIZE_BITS)%N.

(** [a + b] on [size_t]. *)
Definition size_add (a b : N) : N := ((a + b) mod SIZE_MOD)%N.

(** ** Memory primitives *)

(** [*p], for a pointer [p] at offset [p] of the text object. *)
Definition deref (text : list ascii) (p : nat) : outcome ascii :=
  match text !! p with
  | Some c => Ret c
  | None => Undef ReadOutOfBounds
  end.

(** [buf[i] = v]. *)
Definition store (b : list ptr) (i : N) (v : ptr) : outcome (list ptr) :=
  if decide (N.to_nat i < length b) then Ret (<[N.to_nat i := v]> b)
  else Undef ArrayOverflow.

(** An update of the block that [buf[i]] points to. *)
Definition with_block (b : list ptr) (i : N)
    (f : block -> outcome block) : outcome (list ptr) :=
  match b !! N.to_nat i with
  | Some (Ptr blk) => let* blk' := f blk in Ret (<[N.to_nat i := Ptr blk']> b)
  | Some NULL => Undef NullDeref
  | None => Undef ArrayOverflow
  end.

(** Modelled from the spec: [fc_calloc] of [mem.h], which is not part of
    the sources at hand.  It is the calloc-equivalent allocation
    facility: it hands out a zero-initialised buffer of the requested
    size and is assumed never to fail. *)
Definition fc_calloc (n esz : N) : block :=
  replicate (N.to_nat ((n * esz) mod SIZE_MOD)) NUL.

(** [memcpy(dst, text + src, n)]. *)
Definition memcpy (dst : block) (text : list ascii) (src : nat) (n : N)
    : outcome block :=
  let k := N.to_nat n in
  if decide (src + k <= length text) then
    if decide (k <= length dst) then Ret (take k (drop src text) ++ drop k dst)
    else Undef HeapOverflow
  else Undef ReadOutOfBounds.

(** [blk[i] = c]. *)
Definition poke (blk : block) (i : nat) (c : ascii) : outcome block :=
  if decide (i < length blk) then Ret (<[i := c]> blk)
  else Undef HeapOverflow.

(** ** The scanner *)

(** The locals of the function together with the static array. *)
Record state : Type := State {
  start : nat;      (* const char *start, as an offset into the text *)
  pstr : nat;       (* const char *pstr, as an offset into the text *)
  len : N;          (* size_t len *)
  count : N;        (* size_t count *)
  buf : list ptr    (* static char *buf[512] *)
}.

(** [buf[count] = fc_calloc(len + 1, 1); memcpy(buf[count], start, len);] *)
Definition copy_run (text : list ascii) (st : state) : outcome (list ptr) :=
  let* b := store (buf st) (count st) (Ptr (fc_calloc (size_add (len st) 1) 1)) in
  with_block b (count st) (fun blk => memcpy blk text (start st) (len st)).

(** [buf[count] = fc_calloc(2, 1); buf[count][0] = ' ';] *)
Definition space_line (st : state) : outcome (list ptr) :=
  let* b := store (buf st) (count st) (Ptr (fc_calloc 2 1)) in
  with_block b (count st) (fun blk => poke blk 0 SPACE).

(** The first [if] of the loop body: a newline closes the pending run,
    any other byte extends it.
    [if ( *pstr == '\n') { if (len) { copy } else { space }
       start = pstr + 1; len = 0; count++; } else { len++; }] *)
Definition on_char (text : list ascii) (st : state) : outcome state :=
  let* c := deref text (pstr st) in
  if Ascii.eqb c NL then
    let* b := (if N.eqb (len st) 0 then space_line st else copy_run text st) in
    Ret {| start := pstr st + 1; pstr := pstr st; len := 0;
           count := size_add (count st) 1; buf := b |}
  else
    Ret {| start := start st; pstr := pstr st; len := size_add (len st) 1;
           count := count st; buf := buf st |}.

(** The second [if] of the loop body: the terminator flushes the pending
    run, writes the sentinel and moves [start] onto the terminator.
    [if ( *pstr == '\0') { if (len != 0) { copy; count++; }
       buf[count] = NULL; start = pstr; }] *)
Definition on_end (text : list ascii) (st : state) : outcome state :=
  let* c := deref text (pstr st) in
  if Ascii.eqb c NUL then
    let* st' :=
      (if N.eqb (len st) 0 then Ret st
       else
         let* b := copy_run text st in
         Ret {| start := start st; pstr := pstr st; len := len st;
                count := size_add (count st) 1; buf := b |}) in
    let* b := store (buf st') (count st') NULL in
    Ret {| start := pstr st'; pstr := pstr st'; len := len st';
           count := count st'; buf := b |}
  else Ret st.

(** One iteration of the [while] loop: the first [if], [pstr++], the
    second [if]. *)
Definition loop_body (text : list ascii) (st : state) : outcome state :=
  let* st1 := on_char text st in
  on_end text {| start := start st1; pstr := pstr st1 + 1; len := len st1;
                 count := count st1; buf := buf st1 |}.

(** A value together with the equation that it is the value of [a]. *)
Definition inspect {A} (a : A) : {b : A | a = b} := exist _ a eq_refl.

(** [while ( *start != '\0') { ... }], by well-founded recursion on the
    number of bytes of the text object that lie ahead of [pstr]. *)
Equations? while_loop (text : list ascii) (st : state) : outcome state
    by wf (length text - pstr st) lt :=
  while_loop text st with deref text (start st) := {
    | Undef f => Undef f
    | Ret c with Ascii.eqb c NUL := {
      | true => Ret st
      | false with inspect (loop_body text st) := {
        | exist _ (Undef f) _ => Undef f
        | exist _ (Ret st') Hbody => while_loop text st' } } }.
Proof.
  enough (pstr st' = S (pstr st) /\ pstr st < length text) by lia.
  revert Hbody. unfold loop_body, on_char, on_end, deref, bind.
  destruct (text !! pstr st) as [c0|] eqn:E; [|discriminate].
  apply lookup_lt_Some in E.
  repeat case_match; try discriminate; simplify_eq/=; intros; simplify_eq/=;
    split; lia.
Qed.

(** The text object of a C string with contents [s]. *)
Definition c_text (s : list ascii) : list ascii := s ++ [NUL].

(** The state the function starts from, given the static array. *)
Definition init_state (buf0 : list ptr) : state :=
  {| start := 0; pstr := 0; len := 0%N; count := 0%N; buf := buf0 |}.

(** The whole loop, from the initial state. *)
Definition scan (buf0 : list ptr) (text : list ascii) : outcome state :=
  while_loop text (init_state buf0).

(** [create_new_line_utf8strs(pstr)], called with the static array in
    state [buf0] and [pstr] pointing at the first byte of [text]; the
    result is the array the returned pointer designates, which is also
    the state of the static array at the next call. *)
Definition create_new_line_utf8strs (buf0 : list ptr) (text : list ascii)
    : outcome (list ptr) :=
  let* st := scan buf0 text in
  Ret (buf st).

(** ** Well-formed inputs *)

(** [s] is the contents of a C string: no byte of it is the terminator
    and, as for every C object, its size with the terminator is
    representable in [size_t]. *)
Definition is_c_string (s : list ascii) : bool :=
  forallb (fun c => negb (Ascii.eqb c NUL)) s
  && (N.of_nat (length s) + 1 <? SIZE_MOD)%N.

(** ** What the caller reads back *)

(** The blocks before the first null slot. *)
Fixpoint entries (b : list ptr) : list block :=
  match b with
  | Ptr blk :: b' => blk :: entries b'
  | _ => []
  end.

(** The C string a block holds: its bytes before the first NUL. *)
Fixpoint c_str (blk : block) : list ascii :=
  match blk with
  | [] => []
  | c :: blk' => if Ascii.eqb c NUL then [] else c :: c_str blk'
  end.

(** The lines a caller finds in the returned array. *)
Definition lines (b : list ptr) : list (list ascii) := c_str <$> entries b.

(** The lines in the slots the call has filled. *)
Definition produced (st : state) : list (list ascii) :=
  lines (take (N.to_nat (count st)) (buf st)).

(** ** The text and its lines *)

(** Number of newline bytes of [s]. *)
Fixpoint newlines (s : list ascii) : nat :=
  match s with
  | [] => 0
  | c :: s' => (if Ascii.eqb c NL then 1 else 0) + newlines s'
  end.

(** Whether the last byte of [s] is a newline. *)
Definition ends_with_newline (s : list ascii) : bool :=
  match last s with
  | Some c => Ascii.eqb c NL
  | None => false
  end.

(** The string a newline emits for the run that precedes it. *)
Definition line_of (run : list ascii) : list ascii :=
  match run with
  | [] => [SPACE]
  | _ => run
  end.

(** The lines of [s] when the bytes of [run] are pending. *)
Fixpoint split_run (run s : list ascii) : list (list ascii) :=
  match s with
  | [] => match run with
          | [] => []
          | _ => [run]
          end
  | c :: s' =>
      if Ascii.eqb c NL then line_of run :: split_run [] s'
      else split_run (run ++ [c]) s'
  end.

(** The lines of [s]. *)
Definition split_lines (s : list ascii) : list (list ascii) := split_run [] s.

(** Number of lines the text [s] splits into. *)
Definition line_count (s : list ascii) : nat := length (split_lines s).

(** The run that is still pending when the scan of [s] ends. *)
Fixpoint last_run (run s : list ascii) : list ascii :=
  match s with
  | [] => run
  | c :: s' => if Ascii.eqb c NL then last_run [] s' else last_run (run ++ [c]) s'
  end.

(** The segments of a text in the sense of the glossary: the maximal
    runs of bytes between two newline boundaries, or between an end of
    the text and a newline boundary.  [run] is the part of the current
    segment already seen. *)
Fixpoint segments_run (run s : list ascii) : list (list ascii) :=
  match s with
  | [] => [run]
  | c :: s' =>
      if Ascii.eqb c NL then run :: segments_run [] s'
      else segments_run (run ++ [c]) s'
  end.

(** The segments of [s]. *)
Definition segments (s : list ascii) : list (list ascii) := segments_run [] s.

(** The lines joined with one newline between neighbours. *)
Fixpoint join_lines (ls : list (list ascii)) : list ascii :=
  match ls with
  | [] => []
  | l :: ls' =>
      match ls' with
      | [] => l
      | _ => l ++ NL :: join_lines ls'
      end
  end.

(** Whether [l] is the one-byte string [" "]. *)
Definition is_single_space (l : list ascii) : bool :=
  match l with
  | [c] => Ascii.eqb c SPACE
  | _ => false
  end.

(** The conversion of the space-for-empty back to empty. *)
Definition unspace (l : list ascii) : list ascii :=
  if is_single_space l then [] else l.

(** Whether some segment of [s] is itself a single space. *)
Definition has_space_segment (s : list ascii) : bool :=
  existsb is_single_space (segments s).

(** The segments that give rise to a line: all of them, except an empty
    last one. *)
Fixpoint drop_empty_last (segs : list (list ascii)) : list (list ascii) :=
  match segs with
  | [] => []
  | seg :: segs' =>
      match segs' with
      | [] => match seg with
              | [] => []
              | _ => [seg]
              end
      | _ => seg :: drop_empty_last segs'
      end
  end.

(** The bytes of a string literal. *)
Definition chars (s : string) : list ascii := String.list_ascii_of_string s.

(** ** Auxiliary definitions of the proofs *)

(** The heap block of a line: its bytes and the terminator. *)
Definition line_block (l : list ascii) : block := l ++ [NUL].

(** Storing the blocks of [ls] from slot [c] on, then the sentinel. *)
Fixpoint emit_all (b : list ptr) (c : N) (ls : list (list ascii))
    : outcome (list ptr) :=
  match ls with
  | [] => store b c NULL
  | l :: ls' =>
      let* b' := store b c (Ptr (line_block l)) in
      emit_all b' (c + 1)%N ls'
  end.

(** The array a call on a non-empty text leaves behind. *)
Definition filled (buf0 : list ptr) (ls : list (list ascii)) : list ptr :=
  (Ptr <$> (line_block <$> ls)) ++ NULL :: drop (length ls + 1) buf0.

(** Whether no byte of [l] is the terminator. *)
Definition no_nul (l : list ascii) : bool :=
  forallb (fun c => negb (Ascii.eqb c NUL)) l.

(** The state at the head of an iteration: [pre] has been split into
    lines, [run] is pending and [pstr] is about to read what follows. *)
Record scanning (pre run : list ascii) (st : state) : Prop := Scanning {
  sc_start : start st = length pre;
  sc_pstr : pstr st = length pre + length run;
  sc_len : len st = N.of_nat (length run);
  sc_count : N.to_nat (count st) <= length pre
}.

(** The states an iteration hands to [on_end]: after a newline ... *)
Definition after_newline (st : state) (b : list ptr) : state :=
  {| start := pstr st + 1; pstr := pstr st + 1; len := 0;
     count := (count st + 1)%N; buf := b |}.

(** ... and after any other byte. *)
Definition after_other (st : state) : state :=
  {| start := start st; pstr := pstr st + 1; len := (len st + 1)%N;
     count := count st; buf := buf st |}.

(** * Lemmas *)

(** ** One iteration moves [pstr] forward *)

Lemma on_char_pstr text st st' :
  on_char text st = Ret st' -> pstr st' = pstr st /\ pstr st < length text.
Proof.
  unfold on_char, deref.
  destruct (text !! pstr st) as [c|] eqn:E; simpl; [|discriminate].
  apply lookup_lt_Some in E.
  destruct (Ascii.eqb c NL).
  - destruct (if N.eqb (len st) 0 then _ else _); simpl; [|discriminate].
    intros [= <-]. simpl. auto.
  - intros [= <-]. simpl. auto.
Qed.

Lemma on_end_pstr text st st' :
  on_end text st = Ret st' -> pstr st' = pstr st.
Proof.
  unfold on_end.
  destruct (deref text (pstr st)) as [c|]; simpl; [|discriminate].
  destruct (Ascii.eqb c NUL); [|intros [= <-]; reflexivity].
  destruct (N.eqb (len st) 0); simpl.
  - destruct (store _ _ _); simpl; [|discriminate]. intros [= <-]. reflexivity.
  - destruct (copy_run text st); simpl; [|discriminate].
    destruct (store _ _ _); simpl; [|discriminate]. intros [= <-]. reflexivity.
Qed.

(** Every completed iteration moves [pstr] one byte forward inside the
    text object. *)
Lemma loop_body_advances text st st' :
  loop_body text st = Ret st' ->
  pstr st' = S (pstr st) /\ pstr st < length text.
Proof.
  unfold loop_body.
  destruct (on_char text st) as [st1|] eqn:E1; simpl; [|discriminate].
  apply on_char_pstr in E1 as [E1 Hlt].
  intros E2. apply on_end_pstr in E2. simpl in E2. split; [lia|assumption].
Qed.

Lemma while_loop_eq text st :
  while_loop text st =
  match deref text (start st) with
  | Undef f => Undef f
  | Ret c =>
      if Ascii.eqb c NUL then Ret st
      else match loop_body text st with
           | Undef f => Undef f
           | Ret st' => while_loop text st'
           end
  end.
Proof.
  rewrite while_loop_equation_1.
  destruct (deref text (start st)) as [c|f]; simpl; [|reflexivity].
  destruct (Ascii.eqb c NUL); simpl; [reflexivity|].
  destruct (loop_body text st); reflexivity.
Qed.

(** ** Primitive steps *)

Lemma store_with_block b i blk f blk' :
  f blk = Ret blk' ->
  (let* b' := store b i (Ptr blk) in with_block b' i f) = store b i (Ptr blk').
Proof.
  intros Hf. unfold store, with_block.
  destruct (decide (N.to_nat i < length b)) as [Hlt|Hge]; simpl; [|reflexivity].
  rewrite list_lookup_insert_eq by assumption. rewrite Hf. simpl.
  rewrite list_insert_insert_eq. reflexivity.
Qed.

Lemma space_line_store st :
  space_line st = store (buf st) (count st) (Ptr (line_block [SPACE])).
Proof. unfold space_line. apply store_with_block. reflexivity. Qed.

Lemma size_add_small (a b : N) :
  (a + b < SIZE_MOD)%N -> size_add a b = (a + b)%N.
Proof. intros H. unfold size_add. apply N.mod_small. assumption. Qed.

Lemma fc_calloc_bytes (n : N) :
  (n < SIZE_MOD)%N -> fc_calloc n 1 = replicate (N.to_nat n) NUL.
Proof.
  intros H. unfold fc_calloc. rewrite N.mul_1_r, N.mod_small by assumption.
  reflexivity.
Qed.

Lemma copy_run_store text st run :
  take (N.to_nat (len st)) (drop (start st) text) = run ->
  start st + N.to_nat (len st) <= length text ->
  (len st + 1 < SIZE_MOD)%N ->
  copy_run text st = store (buf st) (count st) (Ptr (line_block run)).
Proof.
  intros Hrun Hin Hsz. unfold copy_run. apply store_with_block.
  rewrite size_add_small, fc_calloc_bytes by assumption.
  unfold memcpy.
  rewrite decide_True by assumption.
  rewrite decide_True by (rewrite length_replicate; lia).
  rewrite Hrun. unfold line_block. do 2 f_equal.
  rewrite drop_replicate.
  replace (N.to_nat (len st + 1) - N.to_nat (len st)) with 1 by lia.
  reflexivity.
Qed.

Lemma while_loop_exit text st :
  text !! start st = Some NUL -> while_loop text st = Ret st.
Proof.
  intros H. rewrite while_loop_eq. unfold deref. rewrite H. reflexivity.
Qed.

Lemma is_c_string_size s :
  is_c_string s = true -> (N.of_nat (length s) + 1 < SIZE_MOD)%N.
Proof.
  unfold is_c_string. intros [_ H]%andb_prop. apply N.ltb_lt. assumption.
Qed.

Lemma is_c_string_lookup s i c :
  is_c_string s = true -> s !! i = Some c -> Ascii.eqb c NUL = false.
Proof.
  unfold is_c_string. intros [H _]%andb_prop Hi.
  rewrite forallb_forall in H. apply negb_true_iff, H.
  apply list_elem_of_In. eapply list_elem_of_lookup_2. eassumption.
Qed.

Lemma c_text_lookup_lt s i :
  i < length s -> c_text s !! i = s !! i.
Proof. intros H. unfold c_text. apply lookup_app_l. assumption. Qed.

Lemma c_text_lookup_end s : c_text s !! length s = Some NUL.
Proof. unfold c_text. apply list_lookup_middle. reflexivity. Qed.

(** ** The loop invariant *)

Section Scan.

Variable s : list ascii.
Hypothesis Hs : is_c_string s = true.

Lemma scanning_copy_run pre run rest st :
  s = pre ++ run ++ rest -> scanning pre run st ->
  copy_run (c_text s) st = store (buf st) (count st) (Ptr (line_block run)).
Proof.
  intros -> [Hst Hp Hl Hc]. pose proof (is_c_string_size _ Hs) as Hsz.
  rewrite !length_app in Hsz.
  apply copy_run_store.
  - rewrite Hst, Hl, Nat2N.id. unfold c_text.
    rewrite <- !app_assoc, drop_app_length, take_app_length. reflexivity.
  - rewrite Hst, Hl, Nat2N.id. unfold c_text. rewrite !length_app. lia.
  - rewrite Hl. lia.
Qed.

Lemma scanning_emit pre run rest st :
  s = pre ++ run ++ rest -> scanning pre run st ->
  (if N.eqb (len st) 0 then space_line st else copy_run (c_text s) st)
  = store (buf st) (count st) (Ptr (line_block (line_of run))).
Proof.
  intros Hsplit Hsc. destruct run as [|c run].
  - rewrite (sc_len _ _ _ Hsc). simpl. apply space_line_store.
  - rewrite (sc_len _ _ _ Hsc). simpl.
    eapply scanning_copy_run; eassumption.
Qed.

Lemma on_end_more text st c :
  text !! pstr st = Some c -> Ascii.eqb c NUL = false -> on_end text st = Ret st.
Proof.
  intros Hc Hn. unfold on_end, deref. rewrite Hc. simpl. rewrite Hn. reflexivity.
Qed.

(** At the terminator: the pending run is flushed and the sentinel
    written. *)
Lemma on_end_flush pre run st :
  s = pre ++ run -> scanning pre run st ->
  on_end (c_text s) st =
  let* b := emit_all (buf st) (count st) (split_run run []) in
  Ret {| start := length s; pstr := length s; len := len st;
         count := (count st + N.of_nat (length (split_run run [])))%N;
         buf := b |}.
Proof.
  intros Hsplit Hsc. pose proof (is_c_string_size _ Hs) as Hsz.
  assert (Hp : pstr st = length s)
    by (rewrite (sc_pstr _ _ _ Hsc), Hsplit, length_app; reflexivity).
  unfold on_end, deref. rewrite Hp, c_text_lookup_end. simpl.
  destruct run as [|c run].
  - rewrite (sc_len _ _ _ Hsc). simpl.
    destruct (store (buf st) (count st) NULL); simpl; [|reflexivity].
    rewrite ?Hp, (sc_len _ _ _ Hsc), N.add_0_r. reflexivity.
  - rewrite (scanning_copy_run pre (c :: run) []) by (rewrite ?app_nil_r; assumption).
    rewrite (sc_len _ _ _ Hsc). simpl N.eqb. cbv iota.
    rewrite size_add_small.
    2:{ pose proof (sc_count _ _ _ Hsc). rewrite Hsplit, length_app in Hsz.
        simpl in Hsz. lia. }
    simpl.
    destruct (store (buf st) (count st) _); simpl; [|reflexivity].
    destruct (store _ (count st + 1)%N NULL); simpl; [|reflexivity].
    rewrite ?Hp. reflexivity.
Qed.

Lemma scanning_guard pre run rest st :
  s = pre ++ run ++ rest -> run ++ rest <> [] -> scanning pre run st ->
  exists c, c_text s !! start st = Some c /\ Ascii.eqb c NUL = false.
Proof.
  intros Hsplit Hne Hsc.
  assert (Hlt : start st < length s).
  { rewrite (sc_start _ _ _ Hsc), Hsplit, length_app.
    destruct (run ++ rest); [congruence|]. simpl. lia. }
  destruct (lookup_lt_is_Some_2 _ _ Hlt) as [c Hc].
  exists c. split.
  - rewrite c_text_lookup_lt; assumption.
  - eapply is_c_string_lookup; eassumption.
Qed.

Lemma scanning_next pre run c rest st :
  s = pre ++ run ++ c :: rest -> scanning pre run st ->
  c_text s !! pstr st = Some c /\ Ascii.eqb c NUL = false.
Proof.
  intros Hsplit Hsc.
  assert (Hc : s !! pstr st = Some c).
  { rewrite (sc_pstr _ _ _ Hsc), Hsplit, app_assoc, <- length_app.
    apply list_lookup_middle. reflexivity. }
  split.
  - rewrite c_text_lookup_lt; [assumption|].
    eapply lookup_lt_Some. eassumption.
  - eapply is_c_string_lookup; eassumption.
Qed.

(** What [on_end] does after [pstr] has moved past a byte: with more
    input ahead nothing, with the terminator ahead the final flush. *)
Lemma on_end_ahead pre run rest st :
  s = pre ++ run ++ rest -> scanning pre run st ->
  on_end (c_text s) st =
  match rest with
  | [] =>
      let* b := emit_all (buf st) (count st) (split_run run []) in
      Ret {| start := length s; pstr := length s; len := len st;
             count := (count st + N.of_nat (length (split_run run [])))%N;
             buf := b |}
  | _ => Ret st
  end.
Proof.
  intros Hsplit Hsc. destruct rest as [|c rest].
  - apply (on_end_flush pre run); [rewrite Hsplit, app_nil_r; reflexivity|assumption].
  - destruct (scanning_next _ _ _ _ _ Hsplit Hsc) as [Hc Hn].
    eapply on_end_more; eassumption.
Qed.

Lemma scanning_after_newline pre run st b :
  scanning pre run st -> scanning (pre ++ run ++ [NL]) [] (after_newline st b).
Proof.
  intros [Hst Hp Hl Hc]. split; simpl; rewrite ?length_app; simpl; lia.
Qed.

Lemma scanning_after_other pre run c st :
  scanning pre run st -> scanning pre (run ++ [c]) (after_other st).
Proof.
  intros [Hst Hp Hl Hc]. split; simpl; rewrite ?length_app; simpl; lia.
Qed.

Lemma loop_body_step pre run c rest st :
  s = pre ++ run ++ c :: rest -> scanning pre run st ->
  loop_body (c_text s) st =
  if Ascii.eqb c NL then
    let* b := store (buf st) (count st) (Ptr (line_block (line_of run))) in
    on_end (c_text s) (after_newline st b)
  else on_end (c_text s) (after_other st).
Proof.
  intros Hsplit Hsc. pose proof (is_c_string_size _ Hs) as Hsz.
  destruct (scanning_next _ _ _ _ _ Hsplit Hsc) as [Hc _].
  pose proof Hsc as [Hst Hp Hl Hk].
  rewrite Hsplit, !length_app in Hsz. simpl in Hsz.
  unfold loop_body, on_char, deref. rewrite Hc. simpl.
  destruct (Ascii.eqb c NL).
  - rewrite (scanning_emit pre run (c :: rest)) by assumption.
    destruct (store _ _ _); simpl; [|reflexivity].
    rewrite size_add_small by lia. reflexivity.
  - simpl. rewrite size_add_small by lia. reflexivity.
Qed.

(** The scan from any head-of-iteration state with input ahead. *)
Lemma scan_from rest : forall pre run st,
  s = pre ++ run ++ rest -> rest <> [] -> scanning pre run st ->
  while_loop (c_text s) st =
  let* b := emit_all (buf st) (count st) (split_run run rest) in
  Ret {| start := length s; pstr := length s;
         len := N.of_nat (length (last_run run rest));
         count := (count st + N.of_nat (length (split_run run rest)))%N;
         buf := b |}.
Proof.
  induction rest as [|c rest IH]; intros pre run st Hsplit Hne Hsc; [congruence|].
  clear Hne. rewrite while_loop_eq.
  destruct (scanning_guard pre run (c :: rest) st) as (c0 & Hc0 & Hn0);
    [assumption|destruct run; discriminate|assumption|].
  unfold deref. rewrite Hc0, Hn0.
  rewrite (loop_body_step pre run c rest) by assumption.
  simpl split_run. simpl last_run.
  destruct (Ascii.eqb c NL) eqn:Ec.
  - apply Ascii.eqb_eq in Ec. subst c. simpl emit_all.
    destruct (store (buf st) (count st) _) as [b|f]; simpl; [|reflexivity].
    pose proof (scanning_after_newline pre run st b Hsc) as Hsc'.
    assert (Hsplit' : s = (pre ++ run ++ [NL]) ++ [] ++ rest)
      by (rewrite Hsplit, <- !app_assoc; reflexivity).
    rewrite (on_end_ahead _ [] rest _ Hsplit' Hsc').
    destruct rest as [|c' rest].
    + simpl. destruct (store b _ NULL) as [b'|f]; simpl; [|reflexivity].
      rewrite while_loop_exit by apply c_text_lookup_end.
      do 2 f_equal. lia.
    + rewrite (IH _ [] _ Hsplit' ltac:(discriminate) Hsc'). simpl.
      destruct (emit_all _ _ _); simpl; [|reflexivity].
      do 2 f_equal. lia.
  - pose proof (scanning_after_other pre run c st Hsc) as Hsc'.
    assert (Hsplit' : s = pre ++ (run ++ [c]) ++ rest)
      by (rewrite Hsplit, <- !app_assoc; reflexivity).
    rewrite (on_end_ahead _ _ rest _ Hsplit' Hsc').
    destruct rest as [|c' rest].
    + simpl buf. simpl count.
      destruct (emit_all _ _ _) as [b'|f]; simpl; [|reflexivity].
      rewrite while_loop_exit by apply c_text_lookup_end.
      do 2 f_equal. rewrite length_app, (sc_len _ _ _ Hsc). simpl. lia.
    + rewrite (IH _ _ _ Hsplit' ltac:(discriminate) Hsc'). reflexivity.
Qed.

End Scan.

(** ** The scan as a function of the text *)

Lemma create_scan buf0 text :
  create_new_line_utf8strs buf0 text = let* st := scan buf0 text in Ret (buf st).
Proof. reflexivity. Qed.

(** The scan of a C string, as a function of its contents. *)
Lemma scan_spec s buf0 :
  is_c_string s = true ->
  scan buf0 (c_text s) =
  match s with
  | [] => Ret (init_state buf0)
  | _ =>
      let* b := emit_all buf0 0 (split_lines s) in
      Ret {| start := length s; pstr := length s;
             len := N.of_nat (length (last_run [] s));
             count := N.of_nat (length (split_lines s)); buf := b |}
  end.
Proof.
  intros Hs. unfold scan. destruct s as [|c s].
  - apply while_loop_exit. reflexivity.
  - rewrite (scan_from _ Hs (c :: s) [] []);
      [reflexivity|reflexivity|discriminate|].
    split; simpl; lia.
Qed.

(** ** The array after the emissions *)

Lemma emit_all_fits ls : forall b c,
  N.to_nat c + length ls < length b ->
  emit_all b c ls =
  Ret (take (N.to_nat c) b ++ (Ptr <$> (line_block <$> ls))
       ++ NULL :: drop (N.to_nat c + length ls + 1) b).
Proof.
  induction ls as [|l ls IH]; intros b c Hlt; simpl in *.
  - unfold store. rewrite decide_True by lia.
    rewrite insert_take_drop by lia.
    rewrite Nat.add_0_r, Nat.add_1_r. reflexivity.
  - unfold store. rewrite decide_True by lia. simpl.
    rewrite IH by (rewrite length_insert; lia).
    f_equal.
    replace (N.to_nat (c + 1)) with (S (N.to_nat c)) by lia.
    rewrite (take_S_r _ _ (Ptr (line_block l)))
      by (apply list_lookup_insert_eq; lia).
    rewrite take_insert_ge, drop_insert_lt by lia.
    rewrite <- app_assoc. simpl.
    replace (N.to_nat c + S (length ls) + 1) with (S (N.to_nat c + length ls + 1)) by lia.
    reflexivity.
Qed.

Lemma emit_all_overflow ls : forall b c,
  length b <= N.to_nat c + length ls ->
  emit_all b c ls = Undef ArrayOverflow.
Proof.
  induction ls as [|l ls IH]; intros b c Hge; simpl in *.
  - unfold store. rewrite decide_False by lia. reflexivity.
  - unfold store. destruct (decide _); simpl; [|reflexivity].
    apply IH. rewrite length_insert. lia.
Qed.

(** ** Reading the lines back *)

Lemma entries_blocks blks rest :
  entries ((Ptr <$> blks) ++ NULL :: rest) = blks.
Proof.
  induction blks as [|blk blks IH]; simpl; [reflexivity|].
  f_equal. exact IH.
Qed.

Lemma c_str_line_block l : no_nul l = true -> c_str (line_block l) = l.
Proof.
  unfold line_block. induction l as [|c l IH]; simpl; [reflexivity|].
  intros [Hc Hl]%andb_prop. apply negb_true_iff in Hc. rewrite Hc, IH by assumption.
  reflexivity.
Qed.

Lemma lines_blocks ls rest :
  forallb no_nul ls = true ->
  lines ((Ptr <$> (line_block <$> ls)) ++ NULL :: rest) = ls.
Proof.
  intros H. unfold lines. rewrite entries_blocks.
  induction ls as [|l ls IH]; simpl in *; [reflexivity|].
  apply andb_prop in H as [Hl Hls].
  rewrite c_str_line_block by assumption. f_equal. apply IH. assumption.
Qed.

(** ** Properties of the split *)

Lemma newlines_app s1 s2 : newlines (s1 ++ s2) = newlines s1 + newlines s2.
Proof. induction s1 as [|c s1 IH]; simpl; [reflexivity|rewrite IH; lia]. Qed.

Lemma ends_with_newline_cons c s :
  s <> [] -> ends_with_newline (c :: s) = ends_with_newline s.
Proof.
  intros Hs. unfold ends_with_newline. destruct s; [congruence|]. reflexivity.
Qed.

Lemma ends_with_newline_app r s :
  s <> [] -> ends_with_newline (r ++ s) = ends_with_newline s.
Proof.
  intros Hs. unfold ends_with_newline. destruct s as [|c s] using rev_ind; [congruence|].
  rewrite app_assoc, !last_snoc. reflexivity.
Qed.

Lemma ends_with_newline_snoc s c :
  ends_with_newline (s ++ [c]) = Ascii.eqb c NL.
Proof. unfold ends_with_newline. rewrite last_snoc. reflexivity. Qed.

(** A text that ends in a newline leaves nothing pending: its lines
    are followed by the lines of whatever comes next. *)
Lemma split_run_app s1 : forall run s2,
  ends_with_newline s1 = true ->
  split_run run (s1 ++ s2) = split_run run s1 ++ split_run [] s2.
Proof.
  induction s1 as [|c s1 IH]; intros run s2 Hend; [discriminate|].
  simpl. destruct (decide (s1 = [])) as [->|Hne].
  - unfold ends_with_newline in Hend. simpl in Hend. rewrite Hend. reflexivity.
  - rewrite ends_with_newline_cons in Hend by assumption.
    destruct (Ascii.eqb c NL); rewrite IH by assumption; reflexivity.
Qed.

Lemma split_run_closed_length s : forall run,
  ends_with_newline s = true -> length (split_run run s) = newlines s.
Proof.
  induction s as [|c s IH]; intros run Hend; [discriminate|].
  simpl. destruct (decide (s = [])) as [->|Hne].
  - unfold ends_with_newline in Hend. simpl in Hend. rewrite Hend. reflexivity.
  - rewrite ends_with_newline_cons in Hend by assumption.
    destruct (Ascii.eqb c NL); simpl; rewrite IH by assumption; reflexivity.
Qed.

(** A text without newlines is one pending run. *)
Lemma split_run_plain s : forall run,
  newlines s = 0 -> run ++ s <> [] -> split_run run s = [run ++ s].
Proof.
  induction s as [|c s IH]; intros run Hn Hne; simpl in *.
  - rewrite app_nil_r in *. destruct run; [congruence|reflexivity].
  - destruct (Ascii.eqb c NL); [discriminate|].
    rewrite IH; [rewrite <- app_assoc; reflexivity|assumption|].
    destruct run; discriminate.
Qed.

Lemma split_run_open_length s : forall run,
  run ++ s <> [] -> ends_with_newline (run ++ s) = false ->
  length (split_run run s) = newlines s + 1.
Proof.
  induction s as [|c s IH]; intros run Hne Hend; simpl.
  - rewrite app_nil_r in Hne. destruct run; [congruence|reflexivity].
  - destruct (Ascii.eqb c NL) eqn:Ec.
    + simpl. f_equal.
      assert (Hs : s <> []).
      { intros ->. rewrite ends_with_newline_snoc in Hend. congruence. }
      apply (IH []); [assumption|].
      rewrite (ends_with_newline_app run (c :: s)), ends_with_newline_cons in Hend
        by (assumption || discriminate).
      assumption.
    + apply IH.
      * destruct run; discriminate.
      * rewrite <- app_assoc. assumption.
Qed.

Lemma no_nul_app l1 l2 : no_nul (l1 ++ l2) = no_nul l1 && no_nul l2.
Proof. apply forallb_app. Qed.

Lemma split_run_no_nul s : forall run,
  no_nul run = true -> no_nul s = true ->
  forallb no_nul (split_run run s) = true.
Proof.
  induction s as [|c s IH]; intros run Hrun Hs; simpl in *.
  - destruct run; simpl; [reflexivity|]. rewrite andb_true_r. assumption.
  - apply andb_prop in Hs as [Hc Hs]. destruct (Ascii.eqb c NL); simpl.
    + rewrite (IH []) by (reflexivity || assumption).
      destruct run; simpl in *; [reflexivity|]. rewrite Hrun. reflexivity.
    + apply IH; [|assumption].
      rewrite no_nul_app, Hrun. simpl. rewrite Hc. reflexivity.
Qed.

(** Every line of the split is non-empty, free of newlines, and either
    the single space or a contiguous part of the text. *)
Lemma split_run_line s : forall run l,
  l ∈ split_run run s -> newlines run = 0 ->
  l <> [] /\ newlines l = 0 /\
  (l = [SPACE] \/ exists a b, run ++ s = a ++ l ++ b).
Proof.
  induction s as [|c s IH]; intros run l Hin Hrun; simpl in Hin.
  - destruct run as [|r run]; [inversion Hin|].
    apply list_elem_of_singleton in Hin. subst l.
    split; [discriminate|]. split; [assumption|].
    right. exists [], []. rewrite !app_nil_r. reflexivity.
  - destruct (Ascii.eqb c NL) eqn:Ec.
    + apply elem_of_cons in Hin as [->|Hin].
      * destruct run as [|r run]; simpl.
        -- split; [discriminate|]. split; [reflexivity|]. left. reflexivity.
        -- split; [discriminate|]. split; [assumption|].
           right. exists [], (c :: s). reflexivity.
      * destruct (IH [] l Hin eq_refl) as (Hne & Hnl & [->|(a & b & Hab)]).
        -- split; [discriminate|]. split; [reflexivity|]. left. reflexivity.
        -- split; [assumption|]. split; [assumption|].
           right. exists (run ++ c :: a), b. simpl in Hab. rewrite Hab.
           rewrite <- app_assoc. reflexivity.
    + destruct (IH (run ++ [c]) l Hin) as (Hne & Hnl & Hsub).
      * rewrite newlines_app, Hrun. simpl. rewrite Ec. reflexivity.
      * split; [assumption|]. split; [assumption|].
        rewrite <- app_assoc in Hsub. exact Hsub.
Qed.

Lemma is_c_string_no_nul s : is_c_string s = true -> no_nul s = true.
Proof. unfold is_c_string. intros [H _]%andb_prop. exact H. Qed.

(** ** The result of a call that fits the array *)

Lemma lines_filled buf0 ls : forallb no_nul ls = true -> lines (filled buf0 ls) = ls.
Proof. apply lines_blocks. Qed.

Lemma length_filled buf0 ls :
  length ls < length buf0 -> length (filled buf0 ls) = length buf0.
Proof.
  intros H. unfold filled.
  rewrite length_app, !length_fmap, length_cons, length_drop. lia.
Qed.

Lemma scan_fits s buf0 :
  is_c_string s = true -> s <> [] -> length (split_lines s) < length buf0 ->
  scan buf0 (c_text s) =
  Ret {| start := length s; pstr := length s;
         len := N.of_nat (length (last_run [] s));
         count := N.of_nat (length (split_lines s));
         buf := filled buf0 (split_lines s) |}.
Proof.
  intros Hs Hne Hfit. rewrite scan_spec by assumption.
  destruct s as [|c s]; [congruence|].
  rewrite emit_all_fits by (simpl N.to_nat; lia). reflexivity.
Qed.

Lemma scan_overflow s buf0 :
  is_c_string s = true -> s <> [] -> length buf0 <= length (split_lines s) ->
  scan buf0 (c_text s) = Undef ArrayOverflow.
Proof.
  intros Hs Hne Hfit. rewrite scan_spec by assumption.
  destruct s as [|c s]; [congruence|].
  rewrite emit_all_overflow by (simpl N.to_nat; lia). reflexivity.
Qed.

Lemma create_fits s buf0 :
  is_c_string s = true -> s <> [] -> length (split_lines s) < length buf0 ->
  create_new_line_utf8strs buf0 (c_text s) = Ret (filled buf0 (split_lines s)).
Proof.
  intros Hs Hne Hfit. rewrite create_scan, scan_fits by assumption. reflexivity.
Qed.

Lemma create_empty buf0 : create_new_line_utf8strs buf0 (c_text []) = Ret buf0.
Proof. reflexivity. Qed.

Lemma lines_split s buf0 :
  is_c_string s = true -> lines (filled buf0 (split_lines s)) = split_lines s.
Proof.
  intros Hs. apply lines_filled, split_run_no_nul; [reflexivity|].
  apply is_c_string_no_nul. assumption.
Qed.

(** ** Segments and the way back *)

Lemma segments_run_nonempty run s : segments_run run s <> [].
Proof.
  revert run. induction s as [|c s IH]; intros run; simpl; [discriminate|].
  destruct (Ascii.eqb c NL); [discriminate|apply IH].
Qed.

Lemma join_lines_cons l ls :
  ls <> [] -> join_lines (l :: ls) = l ++ NL :: join_lines ls.
Proof. destruct ls; [congruence|reflexivity]. Qed.

(** Joining the segments gives the text back. *)
Lemma join_segments_run s : forall run,
  join_lines (segments_run run s) = run ++ s.
Proof.
  induction s as [|c s IH]; intros run; simpl.
  - rewrite app_nil_r. reflexivity.
  - destruct (Ascii.eqb c NL) eqn:Ec.
    + apply Ascii.eqb_eq in Ec. subst c.
      rewrite join_lines_cons by apply segments_run_nonempty.
      rewrite IH. reflexivity.
    + rewrite IH, <- app_assoc. reflexivity.
Qed.

Lemma unspace_line_of run : is_single_space run = false -> unspace (line_of run) = run.
Proof.
  intros H. destruct run as [|c run]; [reflexivity|].
  unfold unspace. simpl line_of. rewrite H. reflexivity.
Qed.

Lemma split_run_open_nonempty s run :
  run ++ s <> [] -> ends_with_newline (run ++ s) = false -> split_run run s <> [].
Proof.
  intros Hne Hend Hnil. pose proof (split_run_open_length s run Hne Hend) as Hl.
  rewrite Hnil in Hl. simpl in Hl. lia.
Qed.

(** The way back from the lines of a text that does not end in a
    newline and has no single-space segment. *)
Lemma join_unspace_split_run s : forall run,
  run ++ s <> [] -> ends_with_newline (run ++ s) = false ->
  existsb is_single_space (segments_run run s) = false ->
  join_lines (unspace <$> split_run run s) = run ++ s.
Proof.
  induction s as [|c s IH]; intros run Hne Hend Hsp; simpl in *.
  - rewrite app_nil_r in *. rewrite orb_false_r in Hsp.
    destruct run as [|r run]; [congruence|]. simpl.
    unfold unspace. rewrite Hsp. reflexivity.
  - destruct (Ascii.eqb c NL) eqn:Ec.
    + apply Ascii.eqb_eq in Ec. subst c.
      simpl in Hsp. apply orb_false_elim in Hsp as [Hrun Hsp].
      assert (Hs : s <> []).
      { intros ->. rewrite ends_with_newline_snoc in Hend. discriminate. }
      rewrite (ends_with_newline_app run (NL :: s)), ends_with_newline_cons in Hend
        by (assumption || discriminate).
      rewrite fmap_cons, join_lines_cons.
      * rewrite unspace_line_of by assumption.
        rewrite (IH []) by assumption. reflexivity.
      * intros Hnil. apply fmap_nil_inv in Hnil.
        apply (split_run_open_nonempty s []); assumption.
    + rewrite IH; [rewrite <- app_assoc; reflexivity| | |assumption].
      * destruct run; discriminate.
      * rewrite <- app_assoc. assumption.
Qed.

(** ** Trailing newlines and empty segments *)

Lemma is_c_string_app s1 s2 :
  is_c_string (s1 ++ s2) = true -> is_c_string s1 = true.
Proof.
  unfold is_c_string. rewrite forallb_app, length_app.
  intros [[H1 _]%andb_prop Hsz]%andb_prop.
  rewrite H1. simpl. apply N.ltb_lt in Hsz. apply N.ltb_lt. lia.
Qed.

(** A newline after a text with a pending run only flushes that run. *)
Lemma split_run_trailing_newline s : forall run,
  run ++ s <> [] -> ends_with_newline (run ++ s) = false ->
  split_run run (s ++ [NL]) = split_run run s.
Proof.
  induction s as [|c s IH]; intros run Hne Hend; simpl.
  - rewrite app_nil_r in Hne. destruct run; [congruence|reflexivity].
  - destruct (Ascii.eqb c NL) eqn:Ec.
    + f_equal.
      assert (Hs : s <> []).
      { intros ->. rewrite ends_with_newline_snoc in Hend. congruence. }
      apply (IH []); [assumption|].
      rewrite (ends_with_newline_app run (c :: s)), ends_with_newline_cons in Hend
        by (assumption || discriminate).
      assumption.
    + apply IH.
      * destruct run; discriminate.
      * rewrite <- app_assoc. assumption.
Qed.

(** A newline after a text without a pending run adds one space line. *)
Lemma split_run_newline_after_newline s :
  s = [] \/ ends_with_newline s = true ->
  split_lines (s ++ [NL]) = split_lines s ++ [[SPACE]].
Proof.
  unfold split_lines. intros [->|Hend]; [reflexivity|].
  rewrite split_run_app by assumption. reflexivity.
Qed.

(** The last line of a text whose final segment [t] is non-empty. *)
Lemma split_lines_last pre t :
  t <> [] -> newlines t = 0 -> pre = [] \/ ends_with_newline pre = true ->
  last (split_lines (pre ++ t)) = Some t.
Proof.
  intros Ht Hn Hpre. unfold split_lines.
  assert (Hplain : split_run [] t = [t]) by (apply split_run_plain; assumption).
  destruct Hpre as [->|Hpre].
  - simpl. rewrite Hplain. reflexivity.
  - rewrite split_run_app, Hplain by assumption. apply last_snoc.
Qed.

(** The line of an empty segment that follows a newline. *)
Lemma split_lines_empty_segment pre post :
  split_lines (pre ++ NL :: NL :: post) !! (newlines pre + 1) = Some [SPACE].
Proof.
  unfold split_lines.
  replace (pre ++ NL :: NL :: post) with ((pre ++ [NL]) ++ NL :: post)
    by (rewrite <- app_assoc; reflexivity).
  rewrite split_run_app by apply ends_with_newline_snoc.
  simpl split_run at 2. apply list_lookup_middle.
  rewrite split_run_closed_length by apply ends_with_newline_snoc.
  rewrite newlines_app. reflexivity.
Qed.

Lemma entries_pointers blks : entries (Ptr <$> blks) = blks.
Proof.
  induction blks as [|blk blks IH]; simpl; [reflexivity|].
  f_equal. exact IH.
Qed.

Lemma lines_pointers ls :
  forallb no_nul ls = true -> lines (Ptr <$> (line_block <$> ls)) = ls.
Proof.
  intros H. unfold lines. rewrite entries_pointers.
  induction ls as [|l ls IH]; simpl in *; [reflexivity|].
  apply andb_prop in H as [Hl Hls].
  rewrite c_str_line_block by assumption. f_equal. apply IH. assumption.
Qed.

Lemma take_filled buf0 ls :
  take (length ls) (filled buf0 ls) = Ptr <$> (line_block <$> ls).
Proof.
  unfold filled. apply take_app_length'. rewrite !length_fmap. reflexivity.
Qed.

(** A store that returns has written inside the array. *)
Lemma store_in_bounds b i v b' :
  store b i v = Ret b' ->
  N.to_nat i < length b /\ b' = <[N.to_nat i := v]> b /\ length b' = length b.
Proof.
  unfold store. destruct (decide (N.to_nat i < length b)); [|discriminate].
  intros [= <-]. rewrite length_insert. auto.
Qed.

(** The number of lines in terms of the newlines of the text: one line
    per newline, and one more for a pending final run. *)
Lemma line_count_newlines s :
  line_count s =
  newlines s +
  match s with
  | [] => 0
  | _ => if ends_with_newline s then 0 else 1
  end.
Proof.
  unfold line_count, split_lines. destruct s as [|c s]; [reflexivity|].
  destruct (ends_with_newline (c :: s)) eqn:Hend.
  - rewrite split_run_closed_length by assumption. lia.
  - apply split_run_open_length; [discriminate|assumption].
Qed.

Lemma drop_empty_last_cons seg segs :
  segs <> [] -> drop_empty_last (seg :: segs) = seg :: drop_empty_last segs.
Proof. destruct segs; [congruence|reflexivity]. Qed.

(** The lines are the segments, an empty last one left out and every
    other empty one replaced by the space. *)
Lemma split_run_segments s : forall run,
  split_run run s = line_of <$> drop_empty_last (segments_run run s).
Proof.
  induction s as [|c s IH]; intros run; simpl.
  - destruct run; reflexivity.
  - destruct (Ascii.eqb c NL).
    + rewrite drop_empty_last_cons by apply segments_run_nonempty.
      rewrite fmap_cons, IH. reflexivity.
    + apply IH.
Qed.

(** ** The examples of the specification *)

Example lines_a_b_c :
  create_new_line_utf8strs fresh_buf (c_text ["a"; NL; "b"; NL; "c"]%char)
  = Ret (filled fresh_buf [["a"]; ["b"]; ["c"]]%char).
Proof. vm_compute. reflexivity. Qed.

Example lines_a_empty_b :
  create_new_line_utf8strs fresh_buf (c_text ["a"; NL; NL; "b"]%char)
  = Ret (filled fresh_buf [["a"]; [" "]; ["b"]]%char).
Proof. vm_compute. reflexivity. Qed.

Example lines_512_newlines :
  create_new_line_utf8strs fresh_buf (c_text (replicate 512 NL))
  = Undef ArrayOverflow.
Proof. vm_compute. reflexivity. Qed.

Example lines_hello :
  lines (filled fresh_buf [chars "hello"]) = [chars "hello"].
Proof. reflexivity. Qed.

(** * The properties of [create_new_line_utf8strs] *)

(** C1 (amended): for every non-empty input that contains [k] newline
    characters, does not end in a newline and whose [k + 1] lines leave
    room for the sentinel in the 512-slot array, the call returns an
    array with exactly [k + 1] line entries before the NULL
    terminator. *)
Theorem line_entries_without_trailing_newline (s : list ascii)
    (buf0 : list ptr) (k : nat) :
  is_c_string s = true ->
  length buf0 = BUF_SLOTS ->
  s <> [] ->
  ends_with_newline s = false ->
  newlines s = k ->
  k + 1 < BUF_SLOTS ->
  exists b,
    create_new_line_utf8strs buf0 (c_text s) = Ret b /\
    length (lines b) = k + 1 /\
    b !! (k + 1) = Some NULL.
Proof.
  intros Hs Hb Hne Hend Hk Hfit.
  assert (Hlen : length (split_lines s) = k + 1).
  { rewrite <- Hk. apply split_run_open_length; assumption. }
  exists (filled buf0 (split_lines s)). split; [|split].
  - apply create_fits; [assumption|assumption|lia].
  - rewrite lines_split by assumption. exact Hlen.
  - unfold filled. rewrite <- Hlen.
    apply list_lookup_middle. rewrite !length_fmap. reflexivity.
Qed.

Lemma line_entries_without_trailing_newline_witness :
  exists b,
    create_new_line_utf8strs fresh_buf
      (c_text ["a"; NL; "b"; NL; "c"]%char) = Ret b /\
    length (lines b) = 2 + 1 /\
    b !! (2 + 1) = Some NULL.
Proof.
  apply (line_entries_without_trailing_newline
           ["a"; NL; "b"; NL; "c"]%char fresh_buf 2).
  - reflexivity.
  - reflexivity.
  - discriminate.
  - reflexivity.
  - reflexivity.
  - unfold BUF_SLOTS. lia.
Defined.

(** C1 as stated fails on the empty input, for which [k = 0]: called
    with the array as the runtime initialises it, the function returns
    it untouched, with no line entry before the first NULL, not one. *)
Lemma line_entries_empty_input_counterexample :
  is_c_string [] = true /\
  ends_with_newline [] = false /\
  newlines [] = 0 /\
  create_new_line_utf8strs fresh_buf (c_text []) = Ret fresh_buf /\
  length (lines fresh_buf) = 0 /\
  length (lines fresh_buf) <> newlines [] + 1.
Proof.
  split; [reflexivity|]. split; [reflexivity|]. split; [reflexivity|].
  split; [reflexivity|]. split; [reflexivity|]. discriminate.
Qed.

(** C2 (the code departs from the claim): after a call on ["a"] has
    filled slot 0, a call on the empty input executes no iteration of
    the loop, writes no sentinel and returns the array as it found it:
    slot 0 still holds the block of the earlier call, and a caller reads
    one stale line where the claim promises none. *)
Theorem empty_input_keeps_stale_entry :
  exists b1,
    create_new_line_utf8strs fresh_buf (c_text ["a"]%char) = Ret b1 /\
    create_new_line_utf8strs b1 (c_text []) = Ret b1 /\
    b1 !! 0 = Some (Ptr (line_block ["a"]%char)) /\
    b1 !! 0 <> Some NULL /\
    lines b1 = [["a"]%char].
Proof.
  eexists. split; [vm_compute; reflexivity|].
  split; [reflexivity|]. split; [reflexivity|]. split; [discriminate|reflexivity].
Qed.

(** The empty input leaves every array untouched. *)
Lemma empty_input_returns_array_unchanged (buf0 : list ptr) :
  create_new_line_utf8strs buf0 (c_text []) = Ret buf0.
Proof. reflexivity. Qed.

(** C3 (amended): for every non-empty input [s] that does not end in a
    newline and fits the array, the returned lines end with the final
    segment of [s], the non-empty run after its last newline; and the
    input [s] followed by one newline yields exactly the lines of [s]:
    the empty run after that final newline adds no entry. *)
Theorem final_run_and_trailing_newline (s : list ascii) (buf0 : list ptr) :
  is_c_string (s ++ [NL]) = true ->
  length buf0 = BUF_SLOTS ->
  line_count s < BUF_SLOTS ->
  s <> [] ->
  ends_with_newline s = false ->
  exists b b',
    create_new_line_utf8strs buf0 (c_text s) = Ret b /\
    create_new_line_utf8strs buf0 (c_text (s ++ [NL])) = Ret b' /\
    (forall pre t,
        s = pre ++ t -> t <> [] -> newlines t = 0 ->
        pre = [] \/ ends_with_newline pre = true ->
        last (lines b) = Some t) /\
    lines b' = lines b /\
    length (lines b') = length (lines b).
Proof.
  intros Hs' Hb Hfit Hne Hend.
  pose proof (is_c_string_app _ _ Hs') as Hs.
  assert (Hsame : split_lines (s ++ [NL]) = split_lines s)
    by (apply (split_run_trailing_newline s []); assumption).
  unfold line_count in Hfit.
  exists (filled buf0 (split_lines s)), (filled buf0 (split_lines (s ++ [NL]))).
  split; [apply create_fits; [assumption|assumption|lia]|].
  split.
  { apply create_fits; [assumption|destruct s; discriminate|].
    rewrite Hsame. lia. }
  rewrite !lines_split by assumption. rewrite Hsame.
  split; [|split; reflexivity].
  intros pre t -> Ht Hn Hpre. apply split_lines_last; assumption.
Qed.

Lemma final_run_and_trailing_newline_witness :
  exists b b',
    create_new_line_utf8strs fresh_buf (c_text ["a"; NL; "b"]%char) = Ret b /\
    create_new_line_utf8strs fresh_buf
      (c_text (["a"; NL; "b"]%char ++ [NL])) = Ret b' /\
    (forall pre t,
        ["a"; NL; "b"]%char = pre ++ t -> t <> [] -> newlines t = 0 ->
        pre = [] \/ ends_with_newline pre = true ->
        last (lines b) = Some t) /\
    lines b' = lines b /\
    length (lines b') = length (lines b).
Proof.
  apply (final_run_and_trailing_newline ["a"; NL; "b"]%char fresh_buf).
  - reflexivity.
  - reflexivity.
  - unfold BUF_SLOTS. vm_compute. lia.
  - discriminate.
  - reflexivity.
Defined.

(** C3 as stated fails on the input ["a\n\n"]: it ends in a newline,
    yet it yields two lines, ["a"] and [" "], while the same input
    without that final newline, ["a\n"], yields the single line
    ["a"]. *)
Lemma trailing_newline_counterexample :
  exists b b',
    create_new_line_utf8strs fresh_buf (c_text ["a"; NL]%char) = Ret b /\
    create_new_line_utf8strs fresh_buf
      (c_text (["a"; NL]%char ++ [NL])) = Ret b' /\
    lines b = [["a"]%char] /\
    lines b' = [["a"]%char; [SPACE]] /\
    length (lines b') <> length (lines b).
Proof.
  do 2 eexists. split; [vm_compute; reflexivity|].
  split; [vm_compute; reflexivity|].
  split; [reflexivity|]. split; [reflexivity|]. discriminate.
Qed.

(** C4: for every input that fits the array, an empty segment between
    the start of the input and a newline, or between two consecutive
    newlines, is emitted as the one-byte string [" "], at the index of
    that segment, and never as a zero-length string: no line of a
    non-empty input has length zero. *)
Theorem empty_segment_becomes_space (s : list ascii) (buf0 : list ptr) :
  is_c_string s = true ->
  length buf0 = BUF_SLOTS ->
  line_count s < BUF_SLOTS ->
  exists b,
    create_new_line_utf8strs buf0 (c_text s) = Ret b /\
    (forall post, s = NL :: post -> lines b !! 0 = Some [SPACE]) /\
    (forall pre post,
        s = pre ++ NL :: NL :: post ->
        lines b !! (newlines pre + 1) = Some [SPACE]) /\
    (s <> [] -> [] ∉ lines b).
Proof.
  intros Hs Hb Hfit. unfold line_count in Hfit.
  destruct (decide (s = [])) as [->|Hne].
  - exists buf0. split; [reflexivity|]. split; [discriminate|].
    split; [|congruence]. intros [|c pre] post H; discriminate.
  - exists (filled buf0 (split_lines s)).
    split; [apply create_fits; [assumption|assumption|lia]|].
    rewrite lines_split by assumption. split; [|split].
    + intros post ->. reflexivity.
    + intros pre post ->. apply split_lines_empty_segment.
    + intros _ Hin.
      destruct (split_run_line s [] [] Hin eq_refl) as [Hnil _]. congruence.
Qed.

Lemma empty_segment_becomes_space_witness :
  exists b,
    create_new_line_utf8strs fresh_buf (c_text ["a"; NL; NL; "b"]%char) = Ret b /\
    lines b !! 1 = Some [SPACE] /\
    lines b = [["a"]; [" "]; ["b"]]%char.
Proof.
  destruct (empty_segment_becomes_space ["a"; NL; NL; "b"]%char fresh_buf)
    as (b & Hb & _ & Hmid & _).
  - reflexivity.
  - reflexivity.
  - unfold BUF_SLOTS. vm_compute. lia.
  - exists b. split; [exact Hb|]. split.
    + apply (Hmid ["a"%char] ["b"%char]). reflexivity.
    + vm_compute in Hb. injection Hb as <-. reflexivity.
Defined.

(** C5 (amended): for every non-empty input that does not end in a
    newline, has no segment that is itself a single space and fits the
    array, joining the returned lines with newlines, after turning each
    single-space line back into the empty string, gives the input
    back. *)
Theorem join_lines_round_trip (s : list ascii) (buf0 : list ptr) :
  is_c_string s = true ->
  length buf0 = BUF_SLOTS ->
  line_count s < BUF_SLOTS ->
  s <> [] ->
  ends_with_newline s = false ->
  has_space_segment s = false ->
  exists b,
    create_new_line_utf8strs buf0 (c_text s) = Ret b /\
    join_lines (unspace <$> lines b) = s.
Proof.
  intros Hs Hb Hfit Hne Hend Hsp. unfold line_count in Hfit.
  exists (filled buf0 (split_lines s)).
  split; [apply create_fits; [assumption|assumption|lia]|].
  rewrite lines_split by assumption.
  apply (join_unspace_split_run s []); assumption.
Qed.

Lemma join_lines_round_trip_witness :
  exists b,
    create_new_line_utf8strs fresh_buf
      (c_text ["a"; " "; NL; NL; "b"]%char) = Ret b /\
    join_lines (unspace <$> lines b) = ["a"; " "; NL; NL; "b"]%char.
Proof.
  apply (join_lines_round_trip ["a"; " "; NL; NL; "b"]%char fresh_buf).
  - reflexivity.
  - reflexivity.
  - unfold BUF_SLOTS. vm_compute. lia.
  - discriminate.
  - reflexivity.
  - reflexivity.
Defined.

(** C5 as stated fails on the input [" "], which has no trailing
    newline: its only line is the single space, the conversion turns
    it into the empty string, and the join is the empty text. *)
Lemma join_lines_round_trip_counterexample :
  exists b,
    is_c_string [SPACE] = true /\
    ends_with_newline [SPACE] = false /\
    create_new_line_utf8strs fresh_buf (c_text [SPACE]) = Ret b /\
    lines b = [[SPACE]] /\
    join_lines (unspace <$> lines b) = [] /\
    join_lines (unspace <$> lines b) <> [SPACE].
Proof.
  eexists. split; [reflexivity|]. split; [reflexivity|].
  split; [vm_compute; reflexivity|].
  split; [reflexivity|]. split; [reflexivity|discriminate].
Qed.

(** C6: for every non-empty input that fits the array, the lines of
    the input, one slot each and in order, are followed by the NULL
    sentinel, written at the index [count] right after the last line:
    [count] is the number of lines of the input, its newlines plus one
    for a final run without newline; the lines read back are the
    segments of the input; every slot before [count] points to a line,
    and every slot after it is as it was before the call, so the call
    writes no second sentinel. *)
Theorem sentinel_after_last_line (s : list ascii) (buf0 : list ptr) :
  is_c_string s = true ->
  length buf0 = BUF_SLOTS ->
  line_count s < BUF_SLOTS ->
  s <> [] ->
  exists st,
    scan buf0 (c_text s) = Ret st /\
    create_new_line_utf8strs buf0 (c_text s) = Ret (buf st) /\
    N.to_nat (count st)
    = newlines s + (if ends_with_newline s then 0 else 1) /\
    lines (buf st) = line_of <$> drop_empty_last (segments s) /\
    length (lines (buf st)) = N.to_nat (count st) /\
    buf st !! N.to_nat (count st) = Some NULL /\
    (forall i, i < N.to_nat (count st) -> exists blk, buf st !! i = Some (Ptr blk)) /\
    (forall i, N.to_nat (count st) < i -> buf st !! i = buf0 !! i) /\
    length (buf st) = BUF_SLOTS.
Proof.
  intros Hs Hb Hfit Hne. unfold line_count in Hfit.
  eexists. split; [apply scan_fits; [assumption|assumption|lia]|].
  simpl buf. simpl count. rewrite Nat2N.id.
  split; [apply create_fits; [assumption|assumption|lia]|].
  split.
  { pose proof (line_count_newlines s) as Hc. unfold line_count in Hc.
    destruct s as [|c s]; [congruence|exact Hc]. }
  split; [rewrite lines_split by assumption; apply split_run_segments|].
  split; [rewrite lines_split by assumption; reflexivity|].
  assert (Hlen : length (Ptr <$> (line_block <$> split_lines s))
                 = length (split_lines s))
    by (rewrite !length_fmap; reflexivity).
  split; [|split; [|split]].
  - unfold filled. apply list_lookup_middle. symmetry. exact Hlen.
  - intros i Hi. unfold filled. rewrite lookup_app_l by lia.
    rewrite !list_lookup_fmap.
    destruct (lookup_lt_is_Some_2 (split_lines s) i Hi) as [l Hl].
    rewrite Hl. simpl. eexists. reflexivity.
  - intros i Hi. unfold filled. rewrite lookup_app_r by lia.
    rewrite Hlen. destruct (i - length (split_lines s)) as [|j] eqn:Ej; [lia|].
    simpl. rewrite lookup_drop. f_equal. lia.
  - rewrite length_filled by lia. exact Hb.
Qed.

Lemma sentinel_after_last_line_witness :
  exists st,
    scan fresh_buf (c_text ["a"; NL; "b"]%char) = Ret st /\
    create_new_line_utf8strs fresh_buf (c_text ["a"; NL; "b"]%char)
    = Ret (buf st) /\
    N.to_nat (count st)
    = newlines ["a"; NL; "b"]%char
      + (if ends_with_newline ["a"; NL; "b"]%char then 0 else 1) /\
    lines (buf st)
    = line_of <$> drop_empty_last (segments ["a"; NL; "b"]%char) /\
    length (lines (buf st)) = N.to_nat (count st) /\
    buf st !! N.to_nat (count st) = Some NULL /\
    (forall i, i < N.to_nat (count st) -> exists blk, buf st !! i = Some (Ptr blk)) /\
    (forall i, N.to_nat (count st) < i -> buf st !! i = fresh_buf !! i) /\
    length (buf st) = BUF_SLOTS.
Proof.
  apply (sentinel_after_last_line ["a"; NL; "b"]%char fresh_buf).
  - reflexivity.
  - reflexivity.
  - unfold BUF_SLOTS. vm_compute. lia.
  - discriminate.
Defined.

(** C7: when the input yields at most 511 lines, no write of the call
    leaves the 512-slot array: the call has no undefined behaviour, the
    largest index it writes, that of the sentinel, is below 512, and
    lines and sentinel together take at most 512 slots. *)
Theorem writes_stay_in_bounds (s : list ascii) (buf0 : list ptr) :
  is_c_string s = true ->
  length buf0 = BUF_SLOTS ->
  line_count s <= 511 ->
  exists st,
    scan buf0 (c_text s) = Ret st /\
    create_new_line_utf8strs buf0 (c_text s) = Ret (buf st) /\
    N.to_nat (count st) = line_count s /\
    N.to_nat (count st) < 512 /\
    N.to_nat (count st) + 1 <= 512 /\
    length (buf st) = 512.
Proof.
  intros Hs Hb Hfit. unfold line_count in *.
  destruct (decide (s = [])) as [->|Hne].
  - exists (init_state buf0). simpl. repeat split; try lia. exact Hb.
  - assert (Hlt : length (split_lines s) < length buf0)
      by (rewrite Hb; unfold BUF_SLOTS; lia).
    eexists. split; [apply scan_fits; assumption|].
    simpl buf. simpl count. rewrite Nat2N.id.
    split; [apply create_fits; assumption|].
    split; [reflexivity|]. split; [lia|]. split; [lia|].
    rewrite length_filled by assumption. exact Hb.
Qed.

Lemma writes_stay_in_bounds_witness :
  exists st,
    scan fresh_buf (c_text (replicate 511 NL)) = Ret st /\
    create_new_line_utf8strs fresh_buf (c_text (replicate 511 NL))
    = Ret (buf st) /\
    N.to_nat (count st) = line_count (replicate 511 NL) /\
    N.to_nat (count st) < 512 /\
    N.to_nat (count st) + 1 <= 512 /\
    length (buf st) = 512.
Proof.
  apply (writes_stay_in_bounds (replicate 511 NL) fresh_buf).
  - reflexivity.
  - reflexivity.
  - vm_compute. lia.
Defined.

(** Beyond that capacity the call runs off the array. *)
Lemma too_many_lines_overflow (s : list ascii) (buf0 : list ptr) :
  is_c_string s = true ->
  length buf0 = BUF_SLOTS ->
  512 <= line_count s ->
  create_new_line_utf8strs buf0 (c_text s) = Undef ArrayOverflow.
Proof.
  intros Hs Hb Hmany. unfold line_count in Hmany.
  assert (Hne : s <> []) by (intros ->; simpl in Hmany; lia).
  rewrite create_scan, scan_overflow; [reflexivity|assumption|assumption|].
  rewrite Hb. exact Hmany.
Qed.

(** C8: for every non-empty input without a newline character the call
    produces exactly one line, whose contents are the whole input. *)
Theorem single_line_without_newline (s : list ascii) (buf0 : list ptr) :
  is_c_string s = true ->
  length buf0 = BUF_SLOTS ->
  s <> [] ->
  newlines s = 0 ->
  exists b,
    create_new_line_utf8strs buf0 (c_text s) = Ret b /\
    lines b = [s].
Proof.
  intros Hs Hb Hne Hn.
  assert (Hsplit : split_lines s = [s])
    by (apply (split_run_plain s []); assumption).
  exists (filled buf0 (split_lines s)). split.
  - apply create_fits; [assumption|assumption|].
    rewrite Hsplit, Hb. unfold BUF_SLOTS. simpl. lia.
  - rewrite lines_split by assumption. exact Hsplit.
Qed.

Lemma single_line_without_newline_witness :
  exists b,
    create_new_line_utf8strs fresh_buf (c_text (chars "hello")) = Ret b /\
    lines b = [chars "hello"].
Proof.
  apply (single_line_without_newline (chars "hello") fresh_buf).
  - reflexivity.
  - reflexivity.
  - discriminate.
  - reflexivity.
Defined.

(** C9: for every input that fits the array, each line the call
    produces is a copy of a contiguous, newline-free part of the input,
    or the single space; so it holds no newline and has length at least
    one.  For a non-empty input the produced lines are the lines a
    caller reads before the sentinel. *)
Theorem produced_lines_are_runs (s : list ascii) (buf0 : list ptr) :
  is_c_string s = true ->
  length buf0 = BUF_SLOTS ->
  line_count s < BUF_SLOTS ->
  exists st,
    scan buf0 (c_text s) = Ret st /\
    create_new_line_utf8strs buf0 (c_text s) = Ret (buf st) /\
    length (produced st) = N.to_nat (count st) /\
    (s <> [] -> lines (buf st) = produced st) /\
    (forall l, l ∈ produced st ->
        (NL ∉ l) /\ 1 <= length l /\
        (l = [SPACE] \/ exists a b, s = a ++ l ++ b)).
Proof.
  intros Hs Hb Hfit. unfold line_count in Hfit.
  destruct (decide (s = [])) as [->|Hne].
  - exists (init_state buf0). split; [reflexivity|]. split; [reflexivity|].
    split; [reflexivity|]. split; [congruence|].
    intros l Hl. unfold produced in Hl. simpl in Hl. rewrite take_0 in Hl.
    inversion Hl.
  - assert (Hnn : forallb no_nul (split_lines s) = true)
      by (apply split_run_no_nul; [reflexivity|apply is_c_string_no_nul; assumption]).
    eexists. split; [apply scan_fits; [assumption|assumption|lia]|].
    unfold produced. simpl buf. simpl count. rewrite Nat2N.id, take_filled.
    rewrite lines_pointers by assumption.
    split; [apply create_fits; [assumption|assumption|lia]|].
    split; [reflexivity|]. split; [intros _; apply lines_split; assumption|].
    intros l Hl.
    destruct (split_run_line s [] l Hl eq_refl) as (Hnil & Hnl & Hsub).
    split; [|split; [|exact Hsub]].
    + intros Hin. clear -Hin Hnl.
      induction l as [|c l IH]; [inversion Hin|].
      simpl in Hnl. apply elem_of_cons in Hin as [<-|Hin].
      * rewrite Ascii.eqb_refl in Hnl. discriminate.
      * apply IH; [lia|assumption].
    + destruct l; [congruence|simpl; lia].
Qed.

Lemma produced_lines_are_runs_witness :
  exists st,
    scan fresh_buf (c_text ["a"; NL; NL; "b"]%char) = Ret st /\
    create_new_line_utf8strs fresh_buf (c_text ["a"; NL; NL; "b"]%char)
    = Ret (buf st) /\
    length (produced st) = N.to_nat (count st) /\
    (["a"; NL; NL; "b"]%char <> [] -> lines (buf st) = produced st) /\
    (forall l, l ∈ produced st ->
        (NL ∉ l) /\ 1 <= length l /\
        (l = [SPACE] \/ exists a b, ["a"; NL; NL; "b"]%char = a ++ l ++ b)).
Proof.
  apply (produced_lines_are_runs ["a"; NL; NL; "b"]%char fresh_buf).
  - reflexivity.
  - reflexivity.
  - unfold BUF_SLOTS. vm_compute. lia.
Defined.

(** C10: the scan of every C string terminates.  The loop is defined by
    well-founded recursion on the bytes ahead of [pstr], which every
    completed iteration moves one byte forward; on the text of a C
    string it never reads outside the text, and it leaves the loop with
    [start] and [pstr] on the terminating NUL, unless the lines do not
    fit the array. *)
Theorem scan_terminates (s : list ascii) (buf0 : list ptr) :
  is_c_string s = true ->
  (forall st st',
      loop_body (c_text s) st = Ret st' ->
      pstr st' = S (pstr st) /\
      length (c_text s) - pstr st' < length (c_text s) - pstr st) /\
  ((exists st,
       scan buf0 (c_text s) = Ret st /\
       start st = length s /\ pstr st = length s /\
       deref (c_text s) (start st) = Ret NUL /\
       (s = [] \/ line_count s < length buf0))
   \/ (scan buf0 (c_text s) = Undef ArrayOverflow /\
       s <> [] /\ length buf0 <= line_count s)).
Proof.
  intros Hs. split.
  { intros st st' Hbody. apply loop_body_advances in Hbody. lia. }
  unfold line_count. destruct (decide (s = [])) as [->|Hne].
  { left. exists (init_state buf0). repeat split. left. reflexivity. }
  destruct (decide (length (split_lines s) < length buf0)) as [Hfit|Hfit].
  - left. eexists. split; [apply scan_fits; assumption|]. simpl.
    split; [reflexivity|]. split; [reflexivity|].
    split; [|right; assumption].
    unfold deref. rewrite c_text_lookup_end. reflexivity.
  - right. split; [apply scan_overflow; [assumption|assumption|lia]|].
    split; [assumption|lia].
Qed.

Lemma scan_terminates_witness :
  exists st,
    scan fresh_buf (c_text ["a"; NL; "b"]%char) = Ret st /\
    start st = 3 /\ pstr st = 3.
Proof.
  destruct (scan_terminates ["a"; NL; "b"]%char fresh_buf eq_refl)
    as [_ [(st & Hscan & Hstart & Hpstr & _)|[Hover _]]].
  - exists st. split; [exact Hscan|]. split; assumption.
  - vm_compute in Hover. discriminate.
Defined.

(** * Further properties of [create_new_line_utf8strs] *)

(** ** Bytes behind the terminator are never read *)

Lemma bind_stable {A B} (m m' : outcome A) (k k' : A -> outcome B) r :
  bind m k = r -> r <> Undef ReadOutOfBounds ->
  (forall r0, m = r0 -> r0 <> Undef ReadOutOfBounds -> m' = r0) ->
  (forall a r1, k a = r1 -> r1 <> Undef ReadOutOfBounds -> k' a = r1) ->
  bind m' k' = r.
Proof.
  intros Hr Hne Hm Hk. destruct m as [a|f]; simpl in Hr.
  - rewrite (Hm (Ret a) eq_refl) by discriminate. simpl. apply Hk; assumption.
  - subst r. rewrite (Hm (Undef f) eq_refl) by congruence. reflexivity.
Qed.

Lemma deref_stable text junk p r :
  deref text p = r -> r <> Undef ReadOutOfBounds -> deref (text ++ junk) p = r.
Proof.
  unfold deref. intros <- Hne.
  destruct (text !! p) as [c|] eqn:E; [|congruence].
  rewrite (lookup_app_l_Some _ _ _ _ E). reflexivity.
Qed.

Lemma memcpy_stable dst text junk src n r :
  memcpy dst text src n = r -> r <> Undef ReadOutOfBounds ->
  memcpy dst (text ++ junk) src n = r.
Proof.
  unfold memcpy. intros <- Hne.
  destruct (decide (src + N.to_nat n <= length text)) as [Hin|]; [|congruence].
  rewrite decide_True by (rewrite length_app; lia).
  destruct (decide (N.to_nat n <= length dst)); [|reflexivity].
  rewrite drop_app_le by lia.
  rewrite take_app_le by (rewrite length_drop; lia). reflexivity.
Qed.

Lemma copy_run_stable text junk st r :
  copy_run text st = r -> r <> Undef ReadOutOfBounds ->
  copy_run (text ++ junk) st = r.
Proof.
  unfold copy_run. intros Hr Hne.
  eapply bind_stable; [exact Hr|exact Hne|intros r0 <- _; reflexivity|].
  cbv beta. intros b r1 Hb Hne1. revert Hb. unfold with_block.
  destruct (b !! N.to_nat (count st)) as [[|blk]|]; try (intros <-; reflexivity).
  intros Hb.
  eapply bind_stable; [exact Hb|exact Hne1| |intros ? ? <- _; reflexivity].
  cbv beta. intros r0 Hm Hne0. apply memcpy_stable; assumption.
Qed.

Lemma on_char_stable text junk st r :
  on_char text st = r -> r <> Undef ReadOutOfBounds ->
  on_char (text ++ junk) st = r.
Proof.
  unfold on_char. intros Hr Hne.
  eapply bind_stable; [exact Hr|exact Hne|intros r0; apply deref_stable|].
  cbv beta. intros c r1 Hc Hne1. destruct (Ascii.eqb c NL); [|exact Hc].
  eapply bind_stable; [exact Hc|exact Hne1| |intros ? ? <- _; reflexivity].
  intros r0 Hm Hne0. destruct (N.eqb (len st) 0); [exact Hm|].
  apply copy_run_stable; assumption.
Qed.

Lemma on_end_stable text junk st r :
  on_end text st = r -> r <> Undef ReadOutOfBounds ->
  on_end (text ++ junk) st = r.
Proof.
  unfold on_end. intros Hr Hne.
  eapply bind_stable; [exact Hr|exact Hne|intros r0; apply deref_stable|].
  cbv beta. intros c r1 Hc Hne1. destruct (Ascii.eqb c NUL); [|exact Hc].
  eapply bind_stable; [exact Hc|exact Hne1| |intros ? ? <- _; reflexivity].
  intros r0 Hm Hne0. destruct (N.eqb (len st) 0); [exact Hm|].
  eapply bind_stable; [exact Hm|exact Hne0| |intros ? ? <- _; reflexivity].
  intros r2. apply copy_run_stable.
Qed.

Lemma loop_body_stable text junk st r :
  loop_body text st = r -> r <> Undef ReadOutOfBounds ->
  loop_body (text ++ junk) st = r.
Proof.
  unfold loop_body. intros Hr Hne.
  eapply bind_stable; [exact Hr|exact Hne|intros r0; apply on_char_stable|].
  cbv beta. intros st1 r1. apply on_end_stable.
Qed.

(** A run of the loop that stays inside [text] is the same run on any
    longer text object that starts with [text]. *)
Lemma while_loop_stable text junk : forall n st r,
  length text - pstr st <= n ->
  while_loop text st = r -> r <> Undef ReadOutOfBounds ->
  while_loop (text ++ junk) st = r.
Proof.
  induction n as [|n IH]; intros st r Hn; rewrite !while_loop_eq; intros Hr Hne.
  - destruct (deref text (start st)) as [c|f] eqn:Ed.
    + rewrite (deref_stable _ junk _ _ Ed) by discriminate.
      destruct (Ascii.eqb c NUL); [exact Hr|].
      destruct (loop_body text st) as [st'|f] eqn:Eb.
      * apply loop_body_advances in Eb. lia.
      * rewrite (loop_body_stable _ junk _ _ Eb) by congruence. exact Hr.
    + rewrite (deref_stable _ junk _ _ Ed) by congruence. exact Hr.
  - destruct (deref text (start st)) as [c|f] eqn:Ed.
    + rewrite (deref_stable _ junk _ _ Ed) by discriminate.
      destruct (Ascii.eqb c NUL); [exact Hr|].
      destruct (loop_body text st) as [st'|f] eqn:Eb.
      * rewrite (loop_body_stable _ junk _ _ Eb) by discriminate.
        apply IH; [|assumption|assumption].
        apply loop_body_advances in Eb. lia.
      * rewrite (loop_body_stable _ junk _ _ Eb) by congruence. exact Hr.
    + rewrite (deref_stable _ junk _ _ Ed) by congruence. exact Hr.
Qed.

Lemma scan_never_reads_outside s buf0 :
  is_c_string s = true -> scan buf0 (c_text s) <> Undef ReadOutOfBounds.
Proof.
  intros Hs. rewrite scan_spec by assumption. destruct s as [|c s]; [discriminate|].
  destruct (decide (length (split_lines (c :: s)) < length buf0)).
  - rewrite emit_all_fits by (simpl N.to_nat; lia). discriminate.
  - rewrite emit_all_overflow by (simpl N.to_nat; lia). discriminate.
Qed.

(** ** More facts about the split *)

Lemma ends_with_newline_newlines s :
  ends_with_newline s = true -> 1 <= newlines s.
Proof.
  destruct s as [|c s _] using rev_ind; [discriminate|].
  rewrite ends_with_newline_snoc, newlines_app. intros H. simpl. rewrite H. lia.
Qed.



Lemma join_unspace_split_run_closed s : forall run,
  ends_with_newline s = true ->
  existsb is_single_space (segments_run run s) = false ->
  join_lines (unspace <$> split_run run s) ++ [NL] = run ++ s.
Proof.
  induction s as [|c s IH]; intros run Hend Hsp; [discriminate|].
  simpl in *. destruct (Ascii.eqb c NL) eqn:Ec.
  - apply Ascii.eqb_eq in Ec. subst c.
    simpl in Hsp. apply orb_false_elim in Hsp as [Hrun Hsp].
    destruct (decide (s = [])) as [->|Hne].
    + simpl. rewrite unspace_line_of by assumption. reflexivity.
    + rewrite ends_with_newline_cons in Hend by assumption.
      rewrite fmap_cons, join_lines_cons.
      * rewrite unspace_line_of by assumption.
        rewrite <- app_assoc. simpl. rewrite (IH []) by assumption. reflexivity.
      * intros Hnil. apply fmap_nil_inv in Hnil.
        pose proof (split_run_closed_length s [] Hend) as Hl.
        pose proof (ends_with_newline_newlines s Hend).
        rewrite Hnil in Hl. simpl in Hl. lia.
  - assert (Hne : s <> []).
    { intros ->. unfold ends_with_newline in Hend. simpl in Hend. congruence. }
    rewrite ends_with_newline_cons in Hend by assumption.
    rewrite IH by assumption. rewrite <- app_assoc. reflexivity.
Qed.

Lemma is_c_string_app_r s1 s2 :
  is_c_string (s1 ++ s2) = true -> is_c_string s2 = true.
Proof.
  unfold is_c_string. rewrite forallb_app, length_app.
  intros [[_ H2]%andb_prop Hsz]%andb_prop.
  rewrite H2. simpl. apply N.ltb_lt in Hsz. apply N.ltb_lt. lia.
Qed.

Lemma entries_filled buf0 ls : entries (filled buf0 ls) = line_block <$> ls.
Proof. apply entries_blocks. Qed.

(** ** The properties *)

(** X1: the number of lines of any non-empty input that fits the array
    is its number of newlines, plus one when it does not end in a
    newline; it is never zero. *)
Theorem line_entries_count (s : list ascii) (buf0 : list ptr) :
  is_c_string s = true ->
  length buf0 = BUF_SLOTS ->
  line_count s < BUF_SLOTS ->
  s <> [] ->
  exists b,
    create_new_line_utf8strs buf0 (c_text s) = Ret b /\
    length (lines b)
    = newlines s + (if ends_with_newline s then 0 else 1) /\
    1 <= length (lines b).
Proof.
  intros Hs Hb Hfit Hne.
  exists (filled buf0 (split_lines s)).
  split; [apply create_fits; [assumption|assumption|unfold line_count in Hfit; lia]|].
  rewrite lines_split by assumption.
  pose proof (line_count_newlines s) as Hc. unfold line_count in Hc.
  destruct s as [|c s]; [congruence|]. split; [exact Hc|].
  rewrite Hc. destruct (ends_with_newline (c :: s)) eqn:Hend; [|lia].
  pose proof (ends_with_newline_newlines _ Hend). lia.
Qed.

Lemma line_entries_count_witness :
  exists b,
    create_new_line_utf8strs fresh_buf (c_text ["a"; NL; NL]%char) = Ret b /\
    length (lines b) = 2 + 0 /\
    1 <= length (lines b).
Proof.
  apply (line_entries_count ["a"; NL; NL]%char fresh_buf).
  - reflexivity.
  - reflexivity.
  - unfold BUF_SLOTS. vm_compute. lia.
  - discriminate.
Defined.

(** X2: a call on a non-empty input runs off the 512-slot array exactly
    when the input has at least 512 lines, counted as above. *)
Theorem array_overflow_iff (s : list ascii) (buf0 : list ptr) :
  is_c_string s = true ->
  length buf0 = BUF_SLOTS ->
  s <> [] ->
  create_new_line_utf8strs buf0 (c_text s) = Undef ArrayOverflow
  <-> 512 <= newlines s + (if ends_with_newline s then 0 else 1).
Proof.
  intros Hs Hb Hne.
  pose proof (line_count_newlines s) as Hc.
  destruct s as [|c s]; [congruence|]. rewrite <- Hc. unfold line_count.
  split.
  - intros Hover.
    destruct (decide (512 <= length (split_lines (c :: s)))) as [|Hlt]; [assumption|].
    rewrite create_fits in Hover; [discriminate|assumption|assumption|].
    rewrite Hb. unfold BUF_SLOTS. lia.
  - intros Hmany. rewrite create_scan, scan_overflow; [reflexivity|assumption..|].
    rewrite Hb. exact Hmany.
Qed.

Lemma array_overflow_iff_witness :
  create_new_line_utf8strs fresh_buf (c_text (replicate 511 NL ++ ["a"]%char))
  = Undef ArrayOverflow
  <-> 512 <= newlines (replicate 511 NL ++ ["a"]%char)
             + (if ends_with_newline (replicate 511 NL ++ ["a"]%char)
                then 0 else 1).
Proof.
  apply (array_overflow_iff (replicate 511 NL ++ ["a"]%char) fresh_buf).
  - reflexivity.
  - reflexivity.
  - discriminate.
Defined.



(** X4: the lines of a non-empty input that fits the array are its
    segments in order, an empty last segment left out and every other
    empty segment replaced by the single space. *)
Theorem lines_are_segments (s : list ascii) (buf0 : list ptr) :
  is_c_string s = true ->
  length buf0 = BUF_SLOTS ->
  line_count s < BUF_SLOTS ->
  s <> [] ->
  exists b,
    create_new_line_utf8strs buf0 (c_text s) = Ret b /\
    lines b = line_of <$> drop_empty_last (segments s) /\
    join_lines (segments s) = s.
Proof.
  intros Hs Hb Hfit Hne. unfold line_count in Hfit.
  exists (filled buf0 (split_lines s)).
  split; [apply create_fits; [assumption|assumption|lia]|].
  rewrite lines_split by assumption.
  split; [apply split_run_segments|apply (join_segments_run s [])].
Qed.

Lemma lines_are_segments_witness :
  exists b,
    create_new_line_utf8strs fresh_buf
      (c_text [NL; "a"; "b"; NL; NL; "c"; NL]%char) = Ret b /\
    lines b
    = line_of <$> drop_empty_last (segments [NL; "a"; "b"; NL; NL; "c"; NL]%char) /\
    join_lines (segments [NL; "a"; "b"; NL; NL; "c"; NL]%char)
    = [NL; "a"; "b"; NL; NL; "c"; NL]%char.
Proof.
  apply (lines_are_segments [NL; "a"; "b"; NL; NL; "c"; NL]%char fresh_buf).
  - reflexivity.
  - reflexivity.
  - unfold BUF_SLOTS. vm_compute. lia.
  - discriminate.
Defined.

(** X5: for an input that ends in a newline, has no single-space
    segment and fits the array, the joined lines, spaces turned back
    into empty strings, followed by one newline are the input. *)
Theorem join_lines_round_trip_closed (s : list ascii) (buf0 : list ptr) :
  is_c_string s = true ->
  length buf0 = BUF_SLOTS ->
  line_count s < BUF_SLOTS ->
  ends_with_newline s = true ->
  has_space_segment s = false ->
  exists b,
    create_new_line_utf8strs buf0 (c_text s) = Ret b /\
    join_lines (unspace <$> lines b) ++ [NL] = s.
Proof.
  intros Hs Hb Hfit Hend Hsp. unfold line_count in Hfit.
  assert (Hne : s <> []) by (intros ->; discriminate).
  exists (filled buf0 (split_lines s)).
  split; [apply create_fits; [assumption|assumption|lia]|].
  rewrite lines_split by assumption.
  apply (join_unspace_split_run_closed s []); assumption.
Qed.

Lemma join_lines_round_trip_closed_witness :
  exists b,
    create_new_line_utf8strs fresh_buf
      (c_text ["a"; NL; NL; "b"; NL]%char) = Ret b /\
    join_lines (unspace <$> lines b) ++ [NL] = ["a"; NL; NL; "b"; NL]%char.
Proof.
  apply (join_lines_round_trip_closed ["a"; NL; NL; "b"; NL]%char fresh_buf).
  - reflexivity.
  - reflexivity.
  - unfold BUF_SLOTS. vm_compute. lia.
  - reflexivity.
  - reflexivity.
Defined.

(** X6: on a non-empty input the lines a caller reads do not depend on
    what earlier calls left in the static array: the slots up to the
    sentinel are the same from any two prior states. *)
Theorem lines_independent_of_prior_state (s : list ascii) (buf0 buf1 : list ptr) :
  is_c_string s = true ->
  length buf0 = BUF_SLOTS ->
  length buf1 = BUF_SLOTS ->
  line_count s < BUF_SLOTS ->
  s <> [] ->
  exists b0 b1,
    create_new_line_utf8strs buf0 (c_text s) = Ret b0 /\
    create_new_line_utf8strs buf1 (c_text s) = Ret b1 /\
    lines b0 = lines b1 /\
    take (line_count s + 1) b0 = take (line_count s + 1) b1.
Proof.
  intros Hs Hb0 Hb1 Hfit Hne. unfold line_count in *.
  exists (filled buf0 (split_lines s)), (filled buf1 (split_lines s)).
  split; [apply create_fits; [assumption|assumption|lia]|].
  split; [apply create_fits; [assumption|assumption|lia]|].
  rewrite !lines_split by assumption. split; [reflexivity|].
  unfold filled. rewrite !(cons_middle NULL), !app_assoc.
  rewrite !take_app_length' by (rewrite length_app, !length_fmap; reflexivity).
  reflexivity.
Qed.

Lemma lines_independent_of_prior_state_witness :
  exists b0 b1,
    create_new_line_utf8strs fresh_buf (c_text ["a"; NL; "b"]%char) = Ret b0 /\
    create_new_line_utf8strs (replicate BUF_SLOTS (Ptr [NUL]))
      (c_text ["a"; NL; "b"]%char) = Ret b1 /\
    lines b0 = lines b1 /\
    take (line_count ["a"; NL; "b"]%char + 1) b0
    = take (line_count ["a"; NL; "b"]%char + 1) b1.
Proof.
  apply (lines_independent_of_prior_state ["a"; NL; "b"]%char
           fresh_buf (replicate BUF_SLOTS (Ptr [NUL]))).
  - reflexivity.
  - reflexivity.
  - reflexivity.
  - unfold BUF_SLOTS. vm_compute. lia.
  - discriminate.
Defined.

(** X7: every block a call on a non-empty input hands out holds its
    line followed by exactly one terminating NUL: it is one byte longer
    than the line and its last byte is the only NUL in it. *)
Theorem blocks_are_terminated (s : list ascii) (buf0 : list ptr) :
  is_c_string s = true ->
  length buf0 = BUF_SLOTS ->
  line_count s < BUF_SLOTS ->
  s <> [] ->
  exists b,
    create_new_line_utf8strs buf0 (c_text s) = Ret b /\
    forall blk, blk ∈ entries b ->
      blk = c_str blk ++ [NUL] /\
      length blk = length (c_str blk) + 1 /\
      no_nul (c_str blk) = true.
Proof.
  intros Hs Hb Hfit Hne. unfold line_count in Hfit.
  exists (filled buf0 (split_lines s)).
  split; [apply create_fits; [assumption|assumption|lia]|].
  rewrite entries_filled. intros blk Hin.
  apply list_elem_of_fmap in Hin as (l & -> & Hl).
  assert (Hnn : no_nul l = true).
  { pose proof (split_run_no_nul s [] eq_refl (is_c_string_no_nul _ Hs)) as Hall.
    rewrite forallb_forall in Hall. apply Hall, list_elem_of_In. exact Hl. }
  rewrite c_str_line_block by assumption.
  split; [reflexivity|]. split; [|assumption].
  unfold line_block. rewrite length_app. reflexivity.
Qed.

Lemma blocks_are_terminated_witness :
  exists b,
    create_new_line_utf8strs fresh_buf (c_text ["a"; "b"; NL; NL]%char) = Ret b /\
    forall blk, blk ∈ entries b ->
      blk = c_str blk ++ [NUL] /\
      length blk = length (c_str blk) + 1 /\
      no_nul (c_str blk) = true.
Proof.
  apply (blocks_are_terminated ["a"; "b"; NL; NL]%char fresh_buf).
  - reflexivity.
  - reflexivity.
  - unfold BUF_SLOTS. vm_compute. lia.
  - discriminate.
Defined.

(** X8: the function reads the text up to its terminator only: whatever
    bytes follow the terminator in memory, the call has the same
    outcome. *)
Theorem bytes_after_terminator_ignored (s junk : list ascii) (buf0 : list ptr) :
  is_c_string s = true ->
  create_new_line_utf8strs buf0 (c_text s ++ junk)
  = create_new_line_utf8strs buf0 (c_text s).
Proof.
  intros Hs. rewrite !create_scan. f_equal. unfold scan.
  apply (while_loop_stable _ _ (length (c_text s))); [lia|reflexivity|].
  apply scan_never_reads_outside. assumption.
Qed.

Lemma bytes_after_terminator_ignored_witness :
  create_new_line_utf8strs fresh_buf
    (c_text ["a"; NL; "b"]%char ++ ["x"; NL; NUL; "y"]%char)
  = create_new_line_utf8strs fresh_buf (c_text ["a"; NL; "b"]%char).
Proof.
  apply (bytes_after_terminator_ignored ["a"; NL; "b"]%char
           ["x"; NL; NUL; "y"]%char fresh_buf).
  reflexivity.
Defined.

(** X9: splitting composes at a newline: when [s1] ends in a newline,
    the lines of [s1 ++ s2] are the lines of [s1] followed by the lines
    of [s2]. *)
Theorem lines_compose_at_newline (s1 s2 : list ascii) (buf0 : list ptr) :
  is_c_string (s1 ++ s2) = true ->
  length buf0 = BUF_SLOTS ->
  line_count (s1 ++ s2) < BUF_SLOTS ->
  ends_with_newline s1 = true ->
  s2 <> [] ->
  exists b b1 b2,
    create_new_line_utf8strs buf0 (c_text (s1 ++ s2)) = Ret b /\
    create_new_line_utf8strs buf0 (c_text s1) = Ret b1 /\
    create_new_line_utf8strs buf0 (c_text s2) = Ret b2 /\
    lines b = lines b1 ++ lines b2.
Proof.
  intros Hs Hb Hfit Hend Hne2. unfold line_count in Hfit.
  pose proof (is_c_string_app _ _ Hs) as Hs1.
  pose proof (is_c_string_app_r _ _ Hs) as Hs2.
  assert (Hne1 : s1 <> []) by (intros ->; discriminate).
  assert (Happ : split_lines (s1 ++ s2) = split_lines s1 ++ split_lines s2)
    by (apply split_run_app; assumption).
  rewrite Happ, length_app in Hfit.
  exists (filled buf0 (split_lines (s1 ++ s2))),
         (filled buf0 (split_lines s1)), (filled buf0 (split_lines s2)).
  split.
  { apply create_fits; [assumption|destruct s1; [congruence|discriminate]|].
    rewrite Happ, length_app. lia. }
  split; [apply create_fits; [assumption|assumption|lia]|].
  split; [apply create_fits; [assumption|assumption|lia]|].
  rewrite !lines_split by assumption. exact Happ.
Qed.

Lemma lines_compose_at_newline_witness :
  exists b b1 b2,
    create_new_line_utf8strs fresh_buf
      (c_text (["a"; NL; NL]%char ++ ["b"; NL; "c"]%char)) = Ret b /\
    create_new_line_utf8strs fresh_buf (c_text ["a"; NL; NL]%char) = Ret b1 /\
    create_new_line_utf8strs fresh_buf (c_text ["b"; NL; "c"]%char) = Ret b2 /\
    lines b = lines b1 ++ lines b2.
Proof.
  apply (lines_compose_at_newline ["a"; NL; NL]%char ["b"; NL; "c"]%char
           fresh_buf).
  - reflexivity.
  - reflexivity.
  - unfold BUF_SLOTS. vm_compute. lia.
  - reflexivity.
  - discriminate.
Defined.

(** X10: after a call on any non-empty input that fits, a call on the
    empty input returns the array of the first call as it is: the
    caller reads the lines of the first input again, and slot 0 is not
    the sentinel. *)
Theorem empty_input_repeats_previous_lines (s : list ascii) (buf0 : list ptr) :
  is_c_string s = true ->
  length buf0 = BUF_SLOTS ->
  line_count s < BUF_SLOTS ->
  s <> [] ->
  exists b b',
    create_new_line_utf8strs buf0 (c_text s) = Ret b /\
    create_new_line_utf8strs b (c_text []) = Ret b' /\
    b' = b /\
    lines b' = lines b /\
    lines b' <> [] /\
    b' !! 0 <> Some NULL.
Proof.
  intros Hs Hb Hfit Hne. unfold line_count in Hfit.
  exists (filled buf0 (split_lines s)), (filled buf0 (split_lines s)).
  split; [apply create_fits; [assumption|assumption|lia]|].
  split; [apply create_empty|]. split; [reflexivity|]. split; [reflexivity|].
  rewrite lines_split by assumption.
  pose proof (line_count_newlines s) as Hc. unfold line_count in Hc.
  assert (Hpos : 1 <= length (split_lines s)).
  { rewrite Hc. destruct s as [|c s]; [congruence|].
    destruct (ends_with_newline (c :: s)) eqn:Hend; [|lia].
    pose proof (ends_with_newline_newlines _ Hend). lia. }
  destruct (split_lines s) as [|l ls] eqn:El; [simpl in Hpos; lia|].
  split; discriminate.
Qed.

Lemma empty_input_repeats_previous_lines_witness :
  exists b b',
    create_new_line_utf8strs fresh_buf (c_text ["a"; NL; "b"]%char) = Ret b /\
    create_new_line_utf8strs b (c_text []) = Ret b' /\
    b' = b /\
    lines b' = lines b /\
    lines b' <> [] /\
    b' !! 0 <> Some NULL.
Proof.
  apply (empty_input_repeats_previous_lines ["a"; NL; "b"]%char fresh_buf).
  - reflexivity.
  - reflexivity.
  - unfold BUF_SLOTS. vm_compute. lia.
  - discriminate.
Defined.
